(** * Pointer versus value semantics in [GOlang/function_example.go]

    A shallow embedding of the Go program: the three functions
    [incrementValue], [incrementValueNoPtr] and [main] are written over
    an explicit machine (a store of integer cells, a call stack and the
    standard output), and the properties of the specification are proved
    about them. *)

From Stdlib Require Import ZArith NArith Lia Ascii String.
From stdpp Require Import gmap strings pretty list.

(** ** Go's [int] *)

(** The size of [int] depends on the platform: 32 or 64 bits. *)
Inductive arch := Arch32 | Arch64.

Definition intSize (A : arch) : Z :=
  match A with Arch32 => 32 | Arch64 => 64 end.

Definition minInt (A : arch) : Z := (- 2 ^ (intSize A - 1))%Z.
Definition maxInt (A : arch) : Z := (2 ^ (intSize A - 1) - 1)%Z.

(** The values of type [int]. *)
Definition is_int (A : arch) (z : Z) : Prop :=
  (minInt A ≤ z ≤ maxInt A)%Z.

(** Signed arithmetic wraps around on overflow (two's complement). *)
Definition wrap (A : arch) (z : Z) : Z :=
  ((z - minInt A) mod 2 ^ intSize A + minInt A)%Z.

(** ** Memory, pointers and output *)

Abbreviation addr := N (only parsing).

(** A value of type [*int]: Go's [nil] or the address of an [int] variable. *)
Inductive pointer := Nil | Ptr (a : addr).

(** The functions of the program, as they appear on the call stack. *)
Inductive func := Fn_main | Fn_incrementValue | Fn_incrementValueNoPtr.

(** A frame of the call stack: the running function and the variables
    it declared (parameters included), which live until it returns. *)
Record frame := Frame { fn : func; locals : list addr }.

(** The operand of a [fmt.Printf] call (the program passes at most one). *)
Inductive operand := NoArg | ArgPtr (p : pointer) | ArgInt (v : Z).

(** A call of the [fmt] package. *)
Inductive print_call :=
  | Println (s : string)
  | Printf (format : string) (a : operand).

(** One write to standard output, with the functions that were on the
    call stack when it happened (innermost first). *)
Record event := Event { emitter : list func; call : print_call }.

Record machine := Machine {
  heap : gmap N Z;          (* the live [int] variables *)
  stack : list frame;       (* innermost frame first *)
  stdout : list event       (* oldest first *)
}.

#[global] Instance pointer_eq_dec : EqDecision pointer.
Proof. solve_decision. Defined.
#[global] Instance func_eq_dec : EqDecision func.
Proof. solve_decision. Defined.
#[global] Instance operand_eq_dec : EqDecision operand.
Proof. solve_decision. Defined.
#[global] Instance print_call_eq_dec : EqDecision print_call.
Proof. solve_decision. Defined.
#[global] Instance event_eq_dec : EqDecision event.
Proof. solve_decision. Defined.

(** ** Executions: state passing with run-time panics *)

Inductive outcome (T : Type) :=
  | Returns (x : T) (m : machine)
  | Panics (m : machine).
Arguments Returns {T} x m.
Arguments Panics {T} m.

Definition exec (T : Type) : Type := machine → outcome T.

#[global] Instance exec_ret : MRet exec := λ T x m, Returns x m.
#[global] Instance exec_bind : MBind exec := λ T U f c m,
  match c m with
  | Returns x m' => f x m'
  | Panics m' => Panics m'
  end.

(** The machine in which an execution ends, however it ends. *)
Definition final {T} (o : outcome T) : machine :=
  match o with Returns _ m => m | Panics m => m end.

Definition returned {T} (o : outcome T) : bool :=
  match o with Returns _ _ => true | Panics _ => false end.

Definition nl : string := String (Ascii.ascii_of_nat 10) EmptyString.

Definition set_heap (h : gmap N Z) (m : machine) : machine :=
  Machine h (stack m) (stdout m).
Definition set_stack (s : list frame) (m : machine) : machine :=
  Machine (heap m) s (stdout m).

Definition print (c : print_call) : exec unit := λ m,
  Returns () (Machine (heap m) (stack m) (stdout m ++ [Event (fn <$> stack m) c])).

Definition println (s : string) : exec unit := print (Println s).
Definition printf (format : string) (a : operand) : exec unit :=
  print (Printf format a).

(** [*p] as a value: a nil pointer dereference panics. An address that
    holds no live variable cannot arise in Go; the model treats it as a
    fault as well. *)
Definition load (p : pointer) : exec Z := λ m,
  match p with
  | Nil => Panics m
  | Ptr a => match heap m !! a with
             | Some v => Returns v m
             | None => Panics m
             end
  end.

(** [*p = v]. *)
Definition store (p : pointer) (v : Z) : exec unit := λ m,
  match p with
  | Nil => Panics m
  | Ptr a => match heap m !! a with
             | Some _ => Returns () (set_heap (<[a := v]> (heap m)) m)
             | None => Panics m
             end
  end.

(** [&*p]: evaluating [*p] panics when [p] is nil, and so does [&*p];
    otherwise the result is [p] itself. *)
Definition addr_of_deref (p : pointer) : exec pointer := λ m,
  match p with
  | Nil => Panics m
  | Ptr a => Returns (Ptr a) m
  end.

Definition push_local (a : addr) (s : list frame) : list frame :=
  match s with
  | [] => []
  | Frame f ls :: s' => Frame f (a :: ls) :: s'
  end.

(** Entering a function pushes its frame; returning pops it and ends
    the life of the variables it declared. *)
Definition enter (f : func) : exec unit := λ m,
  Returns () (set_stack (Frame f [] :: stack m) m).

Definition leave : exec unit := λ m,
  match stack m with
  | [] => Returns () m
  | Frame _ ls :: s' =>
      Returns () (Machine (foldr delete (heap m) ls) s' (stdout m))
  end.

Definition call_fn {T} (f : func) (body : exec T) : exec T :=
  enter f;; x ← body; leave;; mret x.

Section Program.

(** The platform's [int] size, and the run-time system's choice of a
    location for a new variable, given the live ones. *)
Variable A : arch.
Variable alloc : gmap N Z → N.

(** A variable declaration (or a parameter receiving its argument):
    a new cell, owned by the running function. *)
Definition new (v : Z) : exec addr := λ m,
  let a := alloc (heap m) in
  Returns a (Machine (<[a := v]> (heap m)) (push_local a (stack m)) (stdout m)).

(** [*p++] *)
Definition incr (p : pointer) : exec unit :=
  v ← load p; store p (wrap A (v + 1)).

Definition incrementValue (valPtr : pointer) : exec unit :=
  call_fn Fn_incrementValue (
    println (nl +:+ "Inside incrementValue function (pointer version):");;
    printf ("Address of variable inside function: %p" +:+ nl) (ArgPtr valPtr);;
    p ← addr_of_deref valPtr;
    printf ("Address where the value is stored (dereferenced pointer): %p" +:+ nl) (ArgPtr p);;
    v ← load valPtr;
    printf ("Value before increment: %d" +:+ nl) (ArgInt v);;

    incr valPtr;;

    v ← load valPtr;
    printf ("Value after increment: %d" +:+ nl) (ArgInt v);;
    printf ("Address of variable inside function after increment (still same pointer address): %p" +:+ nl) (ArgPtr valPtr);;
    p ← addr_of_deref valPtr;
    printf ("Address where the value is stored after increment (still same memory location): %p" +:+ nl) (ArgPtr p)).

Definition incrementValueNoPtr (arg : Z) : exec unit :=
  call_fn Fn_incrementValueNoPtr (
    val ← new arg;                         (* the parameter: a copy *)
    println (nl +:+ "Inside incrementValueNoPtr function (no pointer version):");;
    printf ("Address of variable inside function: %p" +:+ nl) (ArgPtr (Ptr val));;
    v ← load (Ptr val);
    printf ("Value before increment: %d" +:+ nl) (ArgInt v);;

    incr (Ptr val);;

    v ← load (Ptr val);
    printf ("Value after increment: %d" +:+ nl) (ArgInt v);;
    printf ("Address of variable inside function after increment (still same address of copy): %p" +:+ nl) (ArgPtr (Ptr val))).

(** The six numbered steps of [main]. *)

(* 1. Declare a variable with a hardcoded value *)
Definition main_1 : exec addr := new 10.

(* 2. Show initial address and value *)
Definition main_2 (count : addr) : exec unit :=
  println "Initial state:";;
  printf ("Variable name: count" +:+ nl) NoArg;;
  printf ("Address of count in memory: %p" +:+ nl) (ArgPtr (Ptr count));;
  v ← load (Ptr count);
  printf ("Value of count: %d" +:+ nl) (ArgInt v).

(* 3. Call the increment function (pointer version) *)
Definition main_3 (count : addr) : exec unit :=
  incrementValue (Ptr count).

(* 4. Show address and value after incrementing (pointer version) *)
Definition main_4 (count : addr) : exec unit :=
  println (nl +:+ "After incrementValue function (pointer version):");;
  printf ("Address of count in memory (after incrementValue): %p" +:+ nl) (ArgPtr (Ptr count));;
  v ← load (Ptr count);
  printf ("Value of count (after incrementValue): %d" +:+ nl) (ArgInt v).

(* 5. Call the increment function (no pointer version) *)
Definition main_5 (count : addr) : exec unit :=
  v ← load (Ptr count);
  incrementValueNoPtr v.

(* 6. Show address and value after incrementing (no pointer version) *)
Definition main_6 (count : addr) : exec unit :=
  println (nl +:+ "After incrementValueNoPtr function (no pointer version):");;
  printf ("Address of count in memory (after incrementValueNoPtr): %p" +:+ nl) (ArgPtr (Ptr count));;
  v ← load (Ptr count);
  printf ("Value of count (after incrementValueNoPtr): %d" +:+ nl) (ArgInt v).

Definition main : exec unit :=
  call_fn Fn_main (
    count ← main_1;
    main_2 count;;
    main_3 count;;
    main_4 count;;
    main_5 count;;
    main_6 count).

End Program.

(** The machine at program start: nothing allocated, nothing printed. *)
Definition boot : machine := Machine ∅ [] [].

(** ** Running the program *)

(** A run-time system never places a new variable on a live one. *)
Definition fresh_alloc (alloc : gmap N Z → N) : Prop :=
  ∀ h, h !! alloc h = None.

(** A concrete run-time system: variables are placed above [base] and
    above every live variable, one 8-byte word each. *)
Definition bump (base : N) (h : gmap N Z) : N :=
  map_fold (λ a _ top, N.max top (a + 8)%N) base h.

(** [c] executed [n] times in a row. *)
Fixpoint repeat_call (n : nat) (c : exec unit) : exec unit :=
  match n with
  | O => mret ()
  | S n' => c;; repeat_call n' c
  end.

Definition run_steps (steps : list (exec unit)) : exec unit :=
  foldr (λ c k, c;; k) (mret ()) steps.

(** [main] stopped after its step [k] (1 to 6), still inside its frame;
    the result is the address of [count]. *)
Definition main_upto (A : arch) (alloc : gmap N Z → N) (k : nat) : exec N :=
  enter Fn_main;;
  count ← main_1 alloc;
  run_steps (take (k - 1)
    [main_2 count; main_3 A count; main_4 count;
     main_5 A alloc count; main_6 count]);;
  mret count.

(** The exit status of the process: 0 when [main] returns, 2 when the
    run ends in a panic. *)
Definition exit_status {T} (o : outcome T) : Z :=
  if returned o then 0%Z else 2%Z.

(** ** The text on standard output *)

Definition hex_digit (d : N) : Ascii.ascii :=
  default "0"%char (String.get (N.to_nat d) "0123456789abcdef").

Fixpoint hex_go (fuel : nat) (n : N) (acc : string) : string :=
  match fuel with
  | O => acc
  | S fuel' =>
      let acc' := String (hex_digit (n mod 16)) acc in
      if (n / 16 =? 0)%N then acc' else hex_go fuel' (n / 16)%N acc'
  end.

Definition hex (n : N) : string := hex_go (S (N.size_nat n)) n EmptyString.

(** [%p] of a pointer: [0x] and the address in lower-case hexadecimal. *)
Definition fmt_p (p : pointer) : string :=
  "0x" +:+ hex (match p with Nil => 0%N | Ptr a => a end).

(** [%d] of an [int]: decimal, with a minus sign when negative. *)
Definition fmt_d (v : Z) : string := pretty v.

(** The verbs the program uses, on the operands it uses them with;
    any other combination is left as written. *)
Definition fmt_verb (c : Ascii.ascii) (a : operand) : string :=
  match a with
  | ArgPtr p => if decide (c = "p"%char) then fmt_p p else String "%" (String c EmptyString)
  | ArgInt v => if decide (c = "d"%char) then fmt_d v else String "%" (String c EmptyString)
  | NoArg => String "%" (String c EmptyString)
  end.

(** A format with its operand: the first verb takes the operand. *)
Fixpoint expand (format : string) (a : operand) : string :=
  match format with
  | EmptyString => EmptyString
  | String x rest =>
      match rest with
      | String c rest' =>
          if decide (x = "%"%char) then fmt_verb c a +:+ rest'
          else String x (expand rest a)
      | EmptyString => String x EmptyString
      end
  end.

Definition render (c : print_call) : string :=
  match c with
  | Println s => s +:+ nl
  | Printf format a => expand format a
  end.

Definition text (out : list event) : string :=
  foldr (λ e s, render (call e) +:+ s) EmptyString out.

(** ** Reading the output *)

(** What [main] itself printed: the driver's own observations. *)
Definition driver_events (out : list event) : list event :=
  filter (λ e, emitter e = [Fn_main]) out.

Definition events_of (f : func) (out : list event) : list event :=
  filter (λ e, head (emitter e) = Some f) out.

Definition printed_pointer (e : event) : option pointer :=
  match call e with Printf _ (ArgPtr p) => Some p | _ => None end.

Definition printed_int (e : event) : option Z :=
  match call e with Printf _ (ArgInt v) => Some v | _ => None end.

(** The pointers, and the integers, shown in a piece of output. *)
Definition printed_pointers (out : list event) : list pointer :=
  omap printed_pointer out.
Definition printed_ints (out : list event) : list Z :=
  omap printed_int out.

(** A report: a [Println] label and what the [Printf] calls after it
    show, up to the next label. *)
Record report := Report {
  label : string;
  shown_pointers : list pointer;
  shown_ints : list Z
}.

Definition add_to_report (c : print_call) (r : report) : report :=
  match c with
  | Printf _ (ArgPtr p) => Report (label r) (shown_pointers r ++ [p]) (shown_ints r)
  | Printf _ (ArgInt v) => Report (label r) (shown_pointers r) (shown_ints r ++ [v])
  | _ => r
  end.

Fixpoint reports_from (r : report) (out : list event) : list report :=
  match out with
  | [] => [r]
  | e :: out' =>
      match call e with
      | Println s => r :: reports_from (Report s [] []) out'
      | c => reports_from (add_to_report c r) out'
      end
  end.

(** The reports of a piece of output that starts with a label. *)
Definition reports (out : list event) : list report :=
  match out with
  | [] => []
  | e :: out' =>
      match call e with
      | Println s => reports_from (Report s [] []) out'
      | _ => reports_from (Report EmptyString [] []) out
      end
  end.

(** The output with every printed address blanked out. *)
Definition erase_pointer (e : event) : event :=
  match call e with
  | Printf format (ArgPtr _) => Event (emitter e) (Printf format (ArgPtr Nil))
  | _ => e
  end.

Definition erase_pointers (out : list event) : list event :=
  erase_pointer <$> out.

#[global] Instance report_eq_dec : EqDecision report.
Proof. solve_decision. Defined.

(** ** What each function prints *)

(** The seven writes of one [incrementValue] call made below [callers],
    on a pointer [p] to a cell holding [before] and then [after]. *)
Definition incrementValue_out (callers : list func) (p : pointer)
    (before after : Z) : list event :=
  Event (Fn_incrementValue :: callers) <$>
  [ Println (nl +:+ "Inside incrementValue function (pointer version):");
    Printf ("Address of variable inside function: %p" +:+ nl) (ArgPtr p);
    Printf ("Address where the value is stored (dereferenced pointer): %p" +:+ nl) (ArgPtr p);
    Printf ("Value before increment: %d" +:+ nl) (ArgInt before);
    Printf ("Value after increment: %d" +:+ nl) (ArgInt after);
    Printf ("Address of variable inside function after increment (still same pointer address): %p" +:+ nl) (ArgPtr p);
    Printf ("Address where the value is stored after increment (still same memory location): %p" +:+ nl) (ArgPtr p) ].

(** The five writes of one [incrementValueNoPtr] call, whose copy lives
    at [val] and holds [before] and then [after]. *)
Definition incrementValueNoPtr_out (callers : list func) (val : addr)
    (before after : Z) : list event :=
  Event (Fn_incrementValueNoPtr :: callers) <$>
  [ Println (nl +:+ "Inside incrementValueNoPtr function (no pointer version):");
    Printf ("Address of variable inside function: %p" +:+ nl) (ArgPtr (Ptr val));
    Printf ("Value before increment: %d" +:+ nl) (ArgInt before);
    Printf ("Value after increment: %d" +:+ nl) (ArgInt after);
    Printf ("Address of variable inside function after increment (still same address of copy): %p" +:+ nl) (ArgPtr (Ptr val)) ].

(** The writes of [main]'s own steps 2, 4 and 6. *)
Definition main_2_out (count : addr) (v : Z) : list event :=
  Event [Fn_main] <$>
  [ Println "Initial state:";
    Printf ("Variable name: count" +:+ nl) NoArg;
    Printf ("Address of count in memory: %p" +:+ nl) (ArgPtr (Ptr count));
    Printf ("Value of count: %d" +:+ nl) (ArgInt v) ].

Definition main_4_out (count : addr) (v : Z) : list event :=
  Event [Fn_main] <$>
  [ Println (nl +:+ "After incrementValue function (pointer version):");
    Printf ("Address of count in memory (after incrementValue): %p" +:+ nl) (ArgPtr (Ptr count));
    Printf ("Value of count (after incrementValue): %d" +:+ nl) (ArgInt v) ].

Definition main_6_out (count : addr) (v : Z) : list event :=
  Event [Fn_main] <$>
  [ Println (nl +:+ "After incrementValueNoPtr function (no pointer version):");
    Printf ("Address of count in memory (after incrementValueNoPtr): %p" +:+ nl) (ArgPtr (Ptr count));
    Printf ("Value of count (after incrementValueNoPtr): %d" +:+ nl) (ArgInt v) ].

(** The whole output of a run that places [count] at [c] and the copy
    made by [incrementValueNoPtr] at [d]. *)
Definition main_out (c d : addr) : list event :=
  main_2_out c 10 ++ incrementValue_out [Fn_main] (Ptr c) 10 11 ++
  main_4_out c 11 ++ incrementValueNoPtr_out [Fn_main] d 11 12 ++
  main_6_out c 11.

(** Where the run-time system places [count], and then the copy that
    [incrementValueNoPtr] receives (made while [count] holds 11). *)
Definition count_addr (alloc : gmap N Z → N) : addr := alloc ∅.
Definition copy_addr (alloc : gmap N Z → N) : addr :=
  alloc {[count_addr alloc := 11%Z]}.

(** ** Observations on one execution *)

(** What an execution that takes [m] to [m'] wrote to standard output. *)
Definition printed_since (m m' : machine) : list event :=
  drop (length (stdout m)) (stdout m').

(** The text of each write of a piece of output, in order. *)
Definition rendered (out : list event) : list string :=
  (λ e, render (call e)) <$> out.

(** Every live variable holds a value of type [int]. *)
Definition heap_typed (A : arch) (h : gmap N Z) : Prop :=
  map_Forall (λ _ v, is_int A v) h.

(** Steps 3 to 6 of [main]: the two calls, each followed by the report
    on [count]. *)
Definition main_3_to_6 (A : arch) (alloc : gmap N Z → N) (count : addr) : exec unit :=
  main_3 A count;;
  main_4 count;;
  main_5 A alloc count;;
  main_6 count.

(** * Properties *)

(** ** Arithmetic of [int] *)

Lemma intSize_cases A : intSize A = 32%Z ∨ intSize A = 64%Z.
Proof. destruct A; auto. Qed.

Lemma wrap_is_int A z : is_int A (wrap A z).
Proof.
  unfold is_int, wrap, minInt, maxInt.
  destruct A; cbn [intSize];
    [change (2 ^ (32 - 1))%Z with 2147483648%Z; change (2 ^ 32)%Z with 4294967296%Z
    |change (2 ^ (64 - 1))%Z with 9223372036854775808%Z;
     change (2 ^ 64)%Z with 18446744073709551616%Z];
    match goal with |- context [(?x mod ?k)%Z] =>
      pose proof (Z.mod_pos_bound x k ltac:(lia)) end; lia.
Qed.

Lemma wrap_small A z : is_int A z → wrap A z = z.
Proof.
  unfold is_int, wrap, minInt, maxInt. intros Hz.
  rewrite Z.mod_small; [lia |].
  destruct A; cbn [intSize] in *;
    [change (2 ^ (32 - 1))%Z with 2147483648%Z in *; change (2 ^ 32)%Z with 4294967296%Z
    |change (2 ^ (64 - 1))%Z with 9223372036854775808%Z in *;
     change (2 ^ 64)%Z with 18446744073709551616%Z]; lia.
Qed.

Lemma wrap_succ_maxInt A : wrap A (maxInt A + 1) = minInt A.
Proof. by destruct A. Qed.

Lemma wrap_succ_ne A z : wrap A (z + 1) ≠ wrap A z.
Proof.
  unfold wrap. intros H.
  assert (Hk : (1 < 2 ^ intSize A)%Z) by (destruct A; done).
  set (k := (2 ^ intSize A)%Z) in *. set (y := (z - minInt A)%Z) in *.
  replace (z + 1 - minInt A)%Z with (y + 1)%Z in H by (unfold y; lia).
  assert (E : ((y + 1) mod k = y mod k)%Z) by lia.
  pose proof (Z.mod_pos_bound y k ltac:(lia)).
  pose proof (Z.mod_pos_bound (y + 1) k ltac:(lia)).
  pose proof (Z.div_mod y k ltac:(lia)).
  pose proof (Z.div_mod (y + 1) k ltac:(lia)).
  assert (k * ((y + 1) / k - y / k) = 1)%Z by lia.
  assert (0 < (y + 1) / k - y / k)%Z by nia.
  nia.
Qed.

Lemma wrap_wrap_add A x y : wrap A (wrap A x + y) = wrap A (x + y).
Proof.
  unfold wrap. f_equal.
  assert (Hk : (2 ^ intSize A ≠ 0)%Z) by (destruct A; done).
  replace ((x - minInt A) mod 2 ^ intSize A + minInt A + y - minInt A)%Z
    with ((x - minInt A) mod 2 ^ intSize A + y)%Z by lia.
  replace (x + y - minInt A)%Z with ((x - minInt A) + y)%Z by lia.
  by rewrite Z.add_mod_idemp_l.
Qed.

(** ** The run-time system *)

Lemma bump_above base (h : gmap N Z) a :
  is_Some (h !! a) → (a < bump base h)%N.
Proof.
  unfold bump. revert a.
  apply (map_fold_weak_ind
    (λ top (h : gmap N Z), ∀ a, is_Some (h !! a) → (a < top)%N)).
  - intros a [v Hv]. by rewrite lookup_empty in Hv.
  - intros i x m r _ IH a Ha.
    destruct (decide (i = a)) as [->|Hne]; [lia |].
    rewrite lookup_insert_ne in Ha by done. specialize (IH a Ha). lia.
Qed.

Lemma bump_fresh base : fresh_alloc (bump base).
Proof.
  intros h. destruct (h !! bump base h) eqn:E; [|done].
  pose proof (bump_above base h (bump base h) (mk_is_Some _ _ E)). lia.
Qed.

Lemma copy_addr_fresh alloc :
  fresh_alloc alloc → copy_addr alloc ≠ count_addr alloc.
Proof.
  intros Hfresh E. specialize (Hfresh {[count_addr alloc := 11%Z]}).
  fold (copy_addr alloc) in Hfresh. rewrite E in Hfresh.
  by rewrite lookup_singleton_eq in Hfresh.
Qed.

(** ** The functions, as equations on the machine *)

Ltac exec_unfold :=
  unfold call_fn, incr, println, printf, print, enter, leave, load, store,
    addr_of_deref, new, set_heap, set_stack, mbind, exec_bind, mret, exec_ret.

Ltac exec_run :=
  exec_unfold; cbn;
  repeat (first [ rewrite lookup_insert_eq
                | match goal with H : _ !! _ = Some _ |- _ => rewrite H end ];
          cbn).

Lemma incrementValue_returns A a v m :
  heap m !! a = Some v →
  incrementValue A (Ptr a) m =
    Returns () (Machine (<[a := wrap A (v + 1)]> (heap m)) (stack m)
      (stdout m ++ incrementValue_out (fn <$> stack m) (Ptr a) v (wrap A (v + 1)))).
Proof.
  intros Hv. unfold incrementValue. exec_run.
  by rewrite <- !app_assoc.
Qed.

(** On a nil pointer the call prints its first two lines and panics at
    the first [&*valPtr]. *)
Lemma incrementValue_nil A m :
  incrementValue A Nil m =
    Panics (Machine (heap m) (Frame Fn_incrementValue [] :: stack m)
      (stdout m ++ (Event (Fn_incrementValue :: (fn <$> stack m)) <$>
        [ Println (nl +:+ "Inside incrementValue function (pointer version):");
          Printf ("Address of variable inside function: %p" +:+ nl) (ArgPtr Nil) ]))).
Proof. unfold incrementValue. exec_run. by rewrite <- !app_assoc. Qed.

Lemma incrementValueNoPtr_returns A alloc v m :
  heap m !! alloc (heap m) = None →
  incrementValueNoPtr A alloc v m =
    Returns () (Machine (heap m) (stack m)
      (stdout m ++
       incrementValueNoPtr_out (fn <$> stack m) (alloc (heap m)) v (wrap A (v + 1)))).
Proof.
  intros Hfresh. unfold incrementValueNoPtr. exec_run.
  rewrite insert_insert_eq, delete_insert_eq, delete_id by done.
  by rewrite <- !app_assoc.
Qed.

Lemma main_2_returns count v m :
  heap m !! count = Some v → fn <$> stack m = [Fn_main] →
  main_2 count m =
    Returns () (Machine (heap m) (stack m) (stdout m ++ main_2_out count v)).
Proof.
  intros Hv Hs. unfold main_2. exec_run. by rewrite Hs, <- !app_assoc.
Qed.

Lemma main_3_returns A count v m :
  heap m !! count = Some v →
  main_3 A count m =
    Returns () (Machine (<[count := wrap A (v + 1)]> (heap m)) (stack m)
      (stdout m ++
       incrementValue_out (fn <$> stack m) (Ptr count) v (wrap A (v + 1)))).
Proof. apply incrementValue_returns. Qed.

Lemma main_4_returns count v m :
  heap m !! count = Some v → fn <$> stack m = [Fn_main] →
  main_4 count m =
    Returns () (Machine (heap m) (stack m) (stdout m ++ main_4_out count v)).
Proof.
  intros Hv Hs. unfold main_4. exec_run. by rewrite Hs, <- !app_assoc.
Qed.

Lemma main_5_returns A alloc count v m :
  heap m !! count = Some v → heap m !! alloc (heap m) = None →
  main_5 A alloc count m =
    Returns () (Machine (heap m) (stack m)
      (stdout m ++
       incrementValueNoPtr_out (fn <$> stack m) (alloc (heap m)) v (wrap A (v + 1)))).
Proof.
  intros Hv Hfresh. unfold main_5, load, mbind, exec_bind. rewrite Hv.
  by apply incrementValueNoPtr_returns.
Qed.

Lemma main_6_returns count v m :
  heap m !! count = Some v → fn <$> stack m = [Fn_main] →
  main_6 count m =
    Returns () (Machine (heap m) (stack m) (stdout m ++ main_6_out count v)).
Proof.
  intros Hv Hs. unfold main_6. exec_run. by rewrite Hs, <- !app_assoc.
Qed.

(** [main] is its six steps followed by the return. *)
Lemma main_upto_6_main A alloc m :
  main A alloc m = (main_upto A alloc 6;; leave) m.
Proof.
  unfold main, main_upto, call_fn, run_steps. cbn [take foldr Nat.sub].
  unfold mbind, exec_bind, mret, exec_ret, enter. cbn.
  repeat case_match; simplify_eq; try done.
  match goal with H : leave _ = _ |- _ => rewrite H end.
  by repeat match goal with u : () |- _ => destruct u end.
Qed.

(** ** The driver, step by step *)

Section Driver.
Variable A : arch.
Variable alloc : gmap N Z → N.
Hypothesis alloc_fresh : fresh_alloc alloc.

Abbreviation c := (count_addr alloc).
Abbreviation d := (copy_addr alloc).

Lemma wrap_11 : wrap A (10 + 1) = 11%Z.
Proof. by destruct A. Qed.

Lemma wrap_12 : wrap A (11 + 1) = 12%Z.
Proof. by destruct A. Qed.

Ltac main_step :=
  first
    [ erewrite main_2_returns by (cbn; first [apply lookup_insert_eq | reflexivity])
    | erewrite main_3_returns by (cbn; apply lookup_insert_eq)
    | erewrite main_4_returns by (cbn; first [apply lookup_insert_eq | reflexivity])
    | erewrite main_5_returns by (cbn; first [apply lookup_insert_eq | apply alloc_fresh])
    | erewrite main_6_returns by (cbn; first [apply lookup_insert_eq | reflexivity]) ];
  cbn -[main_2 main_3 main_4 main_5 main_6];
  rewrite ?insert_insert_eq, ?wrap_11, ?wrap_12.

Ltac main_start :=
  unfold main, main_upto, call_fn, run_steps, main_1, new, enter, leave,
    mbind, exec_bind, mret, exec_ret, boot, copy_addr, count_addr;
  cbn -[main_2 main_3 main_4 main_5 main_6].

Lemma main_upto_1 :
  main_upto A alloc 1 boot =
    Returns c (Machine {[c := 10%Z]} [Frame Fn_main [c]] []).
Proof. reflexivity. Qed.

Lemma main_upto_2 :
  main_upto A alloc 2 boot =
    Returns c (Machine {[c := 10%Z]} [Frame Fn_main [c]] (main_2_out c 10)).
Proof. main_start. main_step. by rewrite insert_empty. Qed.

Lemma main_upto_3 :
  main_upto A alloc 3 boot =
    Returns c (Machine {[c := 11%Z]} [Frame Fn_main [c]]
      (main_2_out c 10 ++ incrementValue_out [Fn_main] (Ptr c) 10 11)).
Proof. main_start. do 2 main_step. by rewrite insert_empty. Qed.

Lemma main_upto_4 :
  main_upto A alloc 4 boot =
    Returns c (Machine {[c := 11%Z]} [Frame Fn_main [c]]
      (main_2_out c 10 ++ incrementValue_out [Fn_main] (Ptr c) 10 11 ++
       main_4_out c 11)).
Proof. main_start. do 3 main_step. by rewrite insert_empty, <- ?app_assoc. Qed.

Lemma main_upto_5 :
  main_upto A alloc 5 boot =
    Returns c (Machine {[c := 11%Z]} [Frame Fn_main [c]]
      (main_2_out c 10 ++ incrementValue_out [Fn_main] (Ptr c) 10 11 ++
       main_4_out c 11 ++ incrementValueNoPtr_out [Fn_main] d 11 12)).
Proof. main_start. do 4 main_step. by rewrite insert_empty, <- ?app_assoc. Qed.

Lemma main_upto_6 :
  main_upto A alloc 6 boot =
    Returns c (Machine {[c := 11%Z]} [Frame Fn_main [c]] (main_out c d)).
Proof. main_start. do 5 main_step. by rewrite insert_empty, <- ?app_assoc. Qed.

Lemma main_returns :
  main A alloc boot = Returns () (Machine ∅ [] (main_out c d)).
Proof.
  rewrite main_upto_6_main. unfold mbind, exec_bind.
  rewrite main_upto_6. unfold leave. cbn.
  by rewrite delete_singleton_eq.
Qed.
End Driver.

(** ** Repeated calls *)

Lemma repeat_incrementValue A a n : ∀ v m,
  is_int A v → heap m !! a = Some v →
  ∃ m', repeat_call n (incrementValue A (Ptr a)) m = Returns () m' ∧
        heap m' !! a = Some (wrap A (v + Z.of_nat n)).
Proof.
  induction n as [|n IH]; intros v m Hint Hv.
  - exists m. split; [done |]. by rewrite Z.add_0_r, wrap_small.
  - destruct (IH (wrap A (v + 1))
      (Machine (<[a := wrap A (v + 1)]> (heap m)) (stack m)
         (stdout m ++ incrementValue_out (fn <$> stack m) (Ptr a) v (wrap A (v + 1)))))
      as (m' & Hrun & Hm'); [apply wrap_is_int | apply lookup_insert_eq |].
    exists m'. split.
    + cbn [repeat_call]. unfold mbind, exec_bind.
      by rewrite (incrementValue_returns A a v m Hv).
    + rewrite Hm', wrap_wrap_add. do 2 f_equal. lia.
Qed.

Lemma repeat_incrementValueNoPtr A alloc v n : ∀ m,
  heap m !! alloc (heap m) = None →
  ∃ m', repeat_call n (incrementValueNoPtr A alloc v) m = Returns () m' ∧
        heap m' = heap m ∧ stack m' = stack m.
Proof.
  induction n as [|n IH]; intros m Hfresh.
  - by exists m.
  - cbn [repeat_call]. unfold mbind, exec_bind.
    rewrite incrementValueNoPtr_returns by done.
    apply (IH (Machine (heap m) (stack m) _)). done.
Qed.

(** After each of its six steps [main] is in its own frame, and
    [count] is live at the address it was declared at. *)
Lemma main_upto_live A alloc :
  fresh_alloc alloc →
  ∀ k, 1 ≤ k ≤ 6 →
  ∃ v o, main_upto A alloc k boot =
           Returns (count_addr alloc)
             (Machine {[count_addr alloc := v]}
                [Frame Fn_main [count_addr alloc]] o) ∧
         v = if decide (k ≤ 2) then 10%Z else 11%Z.
Proof.
  intros Hfresh k Hk.
  assert (k = 1 ∨ k = 2 ∨ k = 3 ∨ k = 4 ∨ k = 5 ∨ k = 6)
    as [->|[->|[->|[->|[->| ->]]]]] by lia.
  - eexists _, _. split; [apply main_upto_1 | done].
  - eexists _, _. split; [by apply main_upto_2 | done].
  - eexists _, _. split; [by apply main_upto_3 | done].
  - eexists _, _. split; [by apply main_upto_4 | done].
  - eexists _, _. split; [by apply main_upto_5 | done].
  - eexists _, _. split; [by apply main_upto_6 | done].
Qed.

Lemma printed_since_app m h s out :
  printed_since m (Machine h s (stdout m ++ out)) = out.
Proof. unfold printed_since. cbn [stdout]. by rewrite drop_app_length. Qed.

(** ** The claims *)

(** [C1], as amended. For every [int] value [v], a call of
    [incrementValue] with a reference to a cell holding [v] returns and
    leaves every other cell as it was; the cell then holds exactly
    [v + 1] unless [v] is the largest [int], where the increment wraps
    around to the smallest [int]. *)
Theorem incrementValue_adds_one A v a m :
  is_int A v → heap m !! a = Some v →
  ∃ m', incrementValue A (Ptr a) m = Returns () m' ∧
        heap m' =
          <[a := if (v =? maxInt A)%Z then minInt A else (v + 1)%Z]> (heap m).
Proof.
  intros Hint Hv. eexists. split; [by apply incrementValue_returns |].
  cbn. f_equal. destruct (Z.eqb_spec v (maxInt A)) as [->|Hmax].
  - apply wrap_succ_maxInt.
  - apply wrap_small. unfold is_int in *. lia.
Qed.

Lemma incrementValue_adds_one_witness :
  is_int Arch64 10 ∧
  ∃ m', incrementValue Arch64 (Ptr 4096) (Machine {[4096%N := 10%Z]} [] []) =
          Returns () m' ∧
        heap m' = <[4096%N := 11%Z]> {[4096%N := 10%Z]}.
Proof.
  split; [by vm_compute |].
  exact (incrementValue_adds_one Arch64 10 4096
           (Machine {[4096%N := 10%Z]} [] []) ltac:(by vm_compute) eq_refl).
Defined.

(** [C1], as stated, fails at the largest 64-bit [int]: the cell ends
    up holding the smallest [int], not [v + 1]. *)
Lemma incrementValue_maxInt_wraps :
  is_int Arch64 9223372036854775807 ∧
  heap (final (incrementValue Arch64 (Ptr 4096)
                 (Machine {[4096%N := 9223372036854775807%Z]} [] [])))
    !! 4096%N = Some (-9223372036854775808)%Z ∧
  heap (final (incrementValue Arch64 (Ptr 4096)
                 (Machine {[4096%N := 9223372036854775807%Z]} [] [])))
    !! 4096%N ≠ Some (9223372036854775807 + 1)%Z.
Proof.
  split; [by vm_compute |].
  assert (E : heap (final (incrementValue Arch64 (Ptr 4096)
                 (Machine {[4096%N := 9223372036854775807%Z]} [] [])))
    !! 4096%N = Some (-9223372036854775808)%Z) by (by vm_compute).
  split; [exact E |]. rewrite E. discriminate.
Qed.

(** [C2]. A call of [incrementValueNoPtr], with any value, returns and
    leaves the caller's memory exactly as it was: every cell, the
    caller's among them, holds what it held, and the call stack is
    restored. The call only appends its own five lines to the output,
    among them the incremented copy. *)
Theorem incrementValueNoPtr_frame A alloc v m :
  fresh_alloc alloc →
  ∃ m', incrementValueNoPtr A alloc v m = Returns () m' ∧
        heap m' = heap m ∧ stack m' = stack m ∧
        stdout m' =
          stdout m ++
          incrementValueNoPtr_out (fn <$> stack m) (alloc (heap m)) v (wrap A (v + 1)).
Proof.
  intros Hfresh. eexists. split; [by apply incrementValueNoPtr_returns |]. done.
Qed.

Lemma incrementValueNoPtr_frame_witness :
  fresh_alloc (bump 0xc000012000) ∧
  ∃ m', incrementValueNoPtr Arch64 (bump 0xc000012000) 11
          (Machine {[0xc000012000%N := 11%Z]} [Frame Fn_main [0xc000012000%N]] []) =
          Returns () m' ∧
        heap m' = {[0xc000012000%N := 11%Z]} ∧
        stack m' = [Frame Fn_main [0xc000012000%N]] ∧
        stdout m' = incrementValueNoPtr_out [Fn_main] 0xc000012008 11 12.
Proof.
  split; [apply bump_fresh |].
  exact (incrementValueNoPtr_frame Arch64 (bump 0xc000012000) 11
           (Machine {[0xc000012000%N := 11%Z]} [Frame Fn_main [0xc000012000%N]] [])
           (bump_fresh _)).
Defined.

(** [C3]. The run of [main] takes [count] through 10, 11, 11: the cell
    holds 10 once declared, 11 after the [incrementValue] call, and 11
    after the [incrementValueNoPtr] call and at the end of step 6; the
    three values [main] itself prints are 10, 11, 11. *)
Theorem main_trajectory A alloc :
  fresh_alloc alloc →
  ∃ c m1 m3 m5 m6,
    main_upto A alloc 1 boot = Returns c m1 ∧ heap m1 !! c = Some 10%Z ∧
    main_upto A alloc 3 boot = Returns c m3 ∧ heap m3 !! c = Some 11%Z ∧
    main_upto A alloc 5 boot = Returns c m5 ∧ heap m5 !! c = Some 11%Z ∧
    main_upto A alloc 6 boot = Returns c m6 ∧ heap m6 !! c = Some 11%Z ∧
    main A alloc boot = leave m6 ∧
    printed_ints (driver_events (stdout m6)) = [10; 11; 11]%Z.
Proof.
  intros Hfresh. eexists _, _, _, _, _.
  split; [apply main_upto_1 |]. split; [apply lookup_singleton_eq |].
  split; [by apply main_upto_3 |]. split; [apply lookup_singleton_eq |].
  split; [by apply main_upto_5 |]. split; [apply lookup_singleton_eq |].
  split; [by apply main_upto_6 |]. split; [apply lookup_singleton_eq |].
  split; [| reflexivity].
  rewrite main_upto_6_main. unfold mbind, exec_bind.
  by rewrite main_upto_6.
Qed.

Lemma main_trajectory_witness :
  fresh_alloc (bump 0xc000012000) ∧
  ∃ c m1 m3 m5 m6,
    main_upto Arch64 (bump 0xc000012000) 1 boot = Returns c m1 ∧
    heap m1 !! c = Some 10%Z ∧
    main_upto Arch64 (bump 0xc000012000) 3 boot = Returns c m3 ∧
    heap m3 !! c = Some 11%Z ∧
    main_upto Arch64 (bump 0xc000012000) 5 boot = Returns c m5 ∧
    heap m5 !! c = Some 11%Z ∧
    main_upto Arch64 (bump 0xc000012000) 6 boot = Returns c m6 ∧
    heap m6 !! c = Some 11%Z ∧
    main Arch64 (bump 0xc000012000) boot = leave m6 ∧
    printed_ints (driver_events (stdout m6)) = [10; 11; 11]%Z.
Proof.
  split; [apply bump_fresh |].
  exact (main_trajectory Arch64 (bump 0xc000012000) (bump_fresh _)).
Defined.

(** [C4]. The address of [count] is the same at every checkpoint: after
    each of the six steps the variable lives at the address it was
    given when declared; the three addresses [main] prints, and the
    four that [incrementValue] prints, are all that address; the address
    [incrementValueNoPtr] prints is a different one. *)
Theorem count_address_stable A alloc :
  fresh_alloc alloc →
  let out := stdout (final (main A alloc boot)) in
  ∃ c,
    (∀ k, 1 ≤ k ≤ 6 →
       ∃ mk, main_upto A alloc k boot = Returns c mk ∧
             is_Some (heap mk !! c) ∧ stack mk = [Frame Fn_main [c]]) ∧
    printed_pointers (driver_events out) = [Ptr c; Ptr c; Ptr c] ∧
    printed_pointers (events_of Fn_incrementValue out) =
      [Ptr c; Ptr c; Ptr c; Ptr c] ∧
    Ptr c ∉ printed_pointers (events_of Fn_incrementValueNoPtr out).
Proof.
  intros Hfresh out. exists (count_addr alloc).
  unfold out. rewrite main_returns by done. cbn [final stdout].
  split; [| split; [reflexivity | split; [reflexivity |]]].
  - intros k Hk.
    destruct (main_upto_live A alloc Hfresh k Hk) as (v & o & E & _).
    eexists. split; [exact E |]. cbn [heap stack].
    by rewrite lookup_singleton_eq.
  - pose proof (copy_addr_fresh alloc Hfresh) as Hne.
    change (printed_pointers (events_of Fn_incrementValueNoPtr
              (main_out (count_addr alloc) (copy_addr alloc))))
      with [Ptr (copy_addr alloc); Ptr (copy_addr alloc)].
    rewrite !elem_of_cons, elem_of_nil. intros [E|[E|[]]]; congruence.
Qed.

Lemma count_address_stable_witness :
  fresh_alloc (bump 0xc000012000) ∧
  let out := stdout (final (main Arch64 (bump 0xc000012000) boot)) in
  ∃ c,
    (∀ k, 1 ≤ k ≤ 6 →
       ∃ mk, main_upto Arch64 (bump 0xc000012000) k boot = Returns c mk ∧
             is_Some (heap mk !! c) ∧ stack mk = [Frame Fn_main [c]]) ∧
    printed_pointers (driver_events out) = [Ptr c; Ptr c; Ptr c] ∧
    printed_pointers (events_of Fn_incrementValue out) =
      [Ptr c; Ptr c; Ptr c; Ptr c] ∧
    Ptr c ∉ printed_pointers (events_of Fn_incrementValueNoPtr out).
Proof.
  split; [apply bump_fresh |].
  exact (count_address_stable Arch64 (bump 0xc000012000) (bump_fresh _)).
Defined.

(** [C5]. [incrementValueNoPtr] is idempotent on the caller's memory:
    after any number [n] of calls with [v] every cell holds what it
    holds after one call, which is what it held before. In the driver's
    run, from the state after step 4, any number of calls with 11
    leaves [count] at 11. *)
Theorem incrementValueNoPtr_idempotent A alloc v m n :
  fresh_alloc alloc →
  (∃ m1 mn,
     incrementValueNoPtr A alloc v m = Returns () m1 ∧
     repeat_call n (incrementValueNoPtr A alloc v) m = Returns () mn ∧
     heap mn = heap m1 ∧ heap m1 = heap m) ∧
  (∃ c m4 mn,
     main_upto A alloc 4 boot = Returns c m4 ∧
     repeat_call n (incrementValueNoPtr A alloc 11) m4 = Returns () mn ∧
     heap mn !! c = Some 11%Z).
Proof.
  intros Hfresh. split.
  - destruct (repeat_incrementValueNoPtr A alloc v n m (Hfresh _))
      as (mn & Hn & Hheap & _).
    eexists _, mn. split; [by apply incrementValueNoPtr_returns |].
    split; [exact Hn |]. by rewrite Hheap.
  - destruct (repeat_incrementValueNoPtr A alloc 11 n
                (Machine {[count_addr alloc := 11%Z]}
                   [Frame Fn_main [count_addr alloc]]
                   (main_2_out (count_addr alloc) 10 ++
                    incrementValue_out [Fn_main] (Ptr (count_addr alloc)) 10 11 ++
                    main_4_out (count_addr alloc) 11)) (Hfresh _))
      as (mn & Hn & Hheap & _).
    eexists _, _, mn. split; [by apply main_upto_4 |].
    split; [exact Hn |]. rewrite Hheap. apply lookup_singleton_eq.
Qed.

Lemma incrementValueNoPtr_idempotent_witness :
  fresh_alloc (bump 0xc000012000) ∧
  (∃ m1 mn,
     incrementValueNoPtr Arch64 (bump 0xc000012000) 11
       (Machine {[0xc000012000%N := 11%Z]} [Frame Fn_main [0xc000012000%N]] [])
       = Returns () m1 ∧
     repeat_call 3 (incrementValueNoPtr Arch64 (bump 0xc000012000) 11)
       (Machine {[0xc000012000%N := 11%Z]} [Frame Fn_main [0xc000012000%N]] [])
       = Returns () mn ∧
     heap mn = heap m1 ∧ heap m1 = {[0xc000012000%N := 11%Z]}) ∧
  (∃ c m4 mn,
     main_upto Arch64 (bump 0xc000012000) 4 boot = Returns c m4 ∧
     repeat_call 3 (incrementValueNoPtr Arch64 (bump 0xc000012000) 11) m4
       = Returns () mn ∧
     heap mn !! c = Some 11%Z).
Proof.
  split; [apply bump_fresh |].
  exact (incrementValueNoPtr_idempotent Arch64 (bump 0xc000012000) 11
           (Machine {[0xc000012000%N := 11%Z]} [Frame Fn_main [0xc000012000%N]] [])
           3 (bump_fresh _)).
Defined.

(** [C6], as amended. [incrementValue] is not idempotent: [n] calls on
    a cell that starts at an [int] value [v] leave it holding [v + n]
    reduced into the range of [int] by wrap-around, which is [v + n]
    itself whenever [v + n] does not exceed the largest [int]; and two
    calls never leave the cell as one call does. *)
Theorem incrementValue_repeated A v a m n :
  is_int A v → heap m !! a = Some v →
  (∃ m', repeat_call n (incrementValue A (Ptr a)) m = Returns () m' ∧
         heap m' !! a = Some (wrap A (v + Z.of_nat n)) ∧
         ((v + Z.of_nat n ≤ maxInt A)%Z →
            heap m' !! a = Some (v + Z.of_nat n)%Z)) ∧
  heap (final (repeat_call 2 (incrementValue A (Ptr a)) m)) !! a ≠
  heap (final (repeat_call 1 (incrementValue A (Ptr a)) m)) !! a.
Proof.
  intros Hint Hv. split.
  - destruct (repeat_incrementValue A a n v m Hint Hv) as (m' & Hrun & Hm').
    exists m'. split; [done |]. split; [done |].
    intros Hle. rewrite Hm'. f_equal. apply wrap_small.
    unfold is_int in *. lia.
  - destruct (repeat_incrementValue A a 2 v m Hint Hv) as (m2 & -> & E2).
    destruct (repeat_incrementValue A a 1 v m Hint Hv) as (m1 & -> & E1).
    cbn [final]. rewrite E1, E2. intros E. injection E as E.
    apply (wrap_succ_ne A (v + 1)).
    transitivity (wrap A (v + Z.of_nat 2)); [f_equal; lia |].
    rewrite E. f_equal; lia.
Qed.

Lemma incrementValue_repeated_witness :
  is_int Arch64 10 ∧
  (∃ m', repeat_call 3 (incrementValue Arch64 (Ptr 4096))
           (Machine {[4096%N := 10%Z]} [] []) = Returns () m' ∧
         heap m' !! 4096%N = Some (wrap Arch64 (10 + Z.of_nat 3)) ∧
         ((10 + Z.of_nat 3 ≤ maxInt Arch64)%Z →
            heap m' !! 4096%N = Some (10 + Z.of_nat 3)%Z)) ∧
  heap (final (repeat_call 2 (incrementValue Arch64 (Ptr 4096))
                 (Machine {[4096%N := 10%Z]} [] []))) !! 4096%N ≠
  heap (final (repeat_call 1 (incrementValue Arch64 (Ptr 4096))
                 (Machine {[4096%N := 10%Z]} [] []))) !! 4096%N.
Proof.
  split; [by vm_compute |].
  exact (incrementValue_repeated Arch64 10 4096
           (Machine {[4096%N := 10%Z]} [] []) 3 ltac:(by vm_compute) eq_refl).
Defined.

(** [C6], as stated, fails when the count passes the largest [int]: on
    a 32-bit platform two calls on a cell holding 2147483646 leave
    -2147483648 in it, not 2147483648. *)
Lemma incrementValue_twice_overflows :
  is_int Arch32 2147483646 ∧
  heap (final (repeat_call 2 (incrementValue Arch32 (Ptr 4096))
                 (Machine {[4096%N := 2147483646%Z]} [] [])))
    !! 4096%N = Some (-2147483648)%Z ∧
  heap (final (repeat_call 2 (incrementValue Arch32 (Ptr 4096))
                 (Machine {[4096%N := 2147483646%Z]} [] [])))
    !! 4096%N ≠ Some (2147483646 + 2)%Z.
Proof.
  split; [by vm_compute |].
  assert (E : heap (final (repeat_call 2 (incrementValue Arch32 (Ptr 4096))
                 (Machine {[4096%N := 2147483646%Z]} [] [])))
    !! 4096%N = Some (-2147483648)%Z) by (by vm_compute).
  split; [exact E |]. rewrite E. discriminate.
Qed.

(** [C7], as amended. [main] reports on [count] at three checkpoints:
    in step 2, in step 4 (after the [incrementValue] call) and in
    step 6 (after the [incrementValueNoPtr] call); step 1, which
    declares [count], writes nothing. Each report is a label followed
    by a line that shows the address of [count] and a line that shows
    the value [count] holds at that checkpoint. *)
Theorem driver_reports A alloc :
  fresh_alloc alloc →
  let c := count_addr alloc in
  ∃ m1 m2 m4 m6,
    main_upto A alloc 1 boot = Returns c m1 ∧
    main_upto A alloc 2 boot = Returns c m2 ∧
    main_upto A alloc 4 boot = Returns c m4 ∧
    main_upto A alloc 6 boot = Returns c m6 ∧
    stdout (final (main A alloc boot)) = stdout m6 ∧
    stdout m1 = [] ∧
    heap m2 !! c = Some 10%Z ∧
    heap m4 !! c = Some 11%Z ∧
    heap m6 !! c = Some 11%Z ∧
    reports (driver_events (stdout m6)) =
      [ Report "Initial state:" [Ptr c] [10%Z];
        Report (nl +:+ "After incrementValue function (pointer version):")
          [Ptr c] [11%Z];
        Report (nl +:+ "After incrementValueNoPtr function (no pointer version):")
          [Ptr c] [11%Z] ] ∧
    rendered (driver_events (printed_since m1 m2)) =
      [ "Initial state:" +:+ nl;
        "Variable name: count" +:+ nl;
        "Address of count in memory: " +:+ fmt_p (Ptr c) +:+ nl;
        "Value of count: 10" +:+ nl ] ∧
    rendered (driver_events (printed_since m2 m4)) =
      [ nl +:+ "After incrementValue function (pointer version):" +:+ nl;
        "Address of count in memory (after incrementValue): " +:+ fmt_p (Ptr c) +:+ nl;
        "Value of count (after incrementValue): 11" +:+ nl ] ∧
    rendered (driver_events (printed_since m4 m6)) =
      [ nl +:+ "After incrementValueNoPtr function (no pointer version):" +:+ nl;
        "Address of count in memory (after incrementValueNoPtr): " +:+ fmt_p (Ptr c) +:+ nl;
        "Value of count (after incrementValueNoPtr): 11" +:+ nl ].
Proof.
  intros Hfresh c. eexists _, _, _, _.
  split; [apply main_upto_1 |]. split; [by apply main_upto_2 |].
  split; [by apply main_upto_4 |]. split; [by apply main_upto_6 |].
  split; [by rewrite main_returns |]. split; [done |].
  cbn [heap]. rewrite !lookup_singleton_eq.
  by repeat split.
Qed.

Lemma driver_reports_witness :
  fresh_alloc (bump 0xc000012000) ∧
  ∃ m1 m2 m4 m6,
    main_upto Arch64 (bump 0xc000012000) 1 boot = Returns 0xc000012000%N m1 ∧
    main_upto Arch64 (bump 0xc000012000) 2 boot = Returns 0xc000012000%N m2 ∧
    main_upto Arch64 (bump 0xc000012000) 4 boot = Returns 0xc000012000%N m4 ∧
    main_upto Arch64 (bump 0xc000012000) 6 boot = Returns 0xc000012000%N m6 ∧
    stdout (final (main Arch64 (bump 0xc000012000) boot)) = stdout m6 ∧
    stdout m1 = [] ∧
    heap m2 !! 0xc000012000%N = Some 10%Z ∧
    heap m4 !! 0xc000012000%N = Some 11%Z ∧
    heap m6 !! 0xc000012000%N = Some 11%Z ∧
    reports (driver_events (stdout m6)) =
      [ Report "Initial state:" [Ptr 0xc000012000] [10%Z];
        Report (nl +:+ "After incrementValue function (pointer version):")
          [Ptr 0xc000012000] [11%Z];
        Report (nl +:+ "After incrementValueNoPtr function (no pointer version):")
          [Ptr 0xc000012000] [11%Z] ] ∧
    rendered (driver_events (printed_since m1 m2)) =
      [ "Initial state:" +:+ nl;
        "Variable name: count" +:+ nl;
        "Address of count in memory: 0xc000012000" +:+ nl;
        "Value of count: 10" +:+ nl ] ∧
    rendered (driver_events (printed_since m2 m4)) =
      [ nl +:+ "After incrementValue function (pointer version):" +:+ nl;
        "Address of count in memory (after incrementValue): 0xc000012000" +:+ nl;
        "Value of count (after incrementValue): 11" +:+ nl ] ∧
    rendered (driver_events (printed_since m4 m6)) =
      [ nl +:+ "After incrementValueNoPtr function (no pointer version):" +:+ nl;
        "Address of count in memory (after incrementValueNoPtr): 0xc000012000" +:+ nl;
        "Value of count (after incrementValueNoPtr): 11" +:+ nl ].
Proof.
  split; [apply bump_fresh |].
  exact (driver_reports Arch64 (bump 0xc000012000) (bump_fresh _)).
Defined.

(** [C7], as stated, fails: the run has no four checkpoints at which
    [main] reports. Step 1 writes nothing, [main] makes three reports,
    and of the five reports of the whole output the other two are made
    inside the callees: the one inside [incrementValue] shows two
    values, 10 and 11, and the one inside [incrementValueNoPtr] shows
    another address. *)
Lemma driver_reports_not_four :
  let out := stdout (final (main Arch64 (bump 0xc000012000) boot)) in
  fresh_alloc (bump 0xc000012000) ∧
  stdout (final (main_upto Arch64 (bump 0xc000012000) 1 boot)) = [] ∧
  length (reports (driver_events out)) = 3 ∧
  length (reports (driver_events out)) ≠ 4 ∧
  length (reports out) = 5 ∧
  reports (events_of Fn_incrementValue out) =
    [ Report (nl +:+ "Inside incrementValue function (pointer version):")
        [Ptr 0xc000012000; Ptr 0xc000012000; Ptr 0xc000012000; Ptr 0xc000012000]
        [10%Z; 11%Z] ] ∧
  reports (events_of Fn_incrementValueNoPtr out) =
    [ Report (nl +:+ "Inside incrementValueNoPtr function (no pointer version):")
        [Ptr 0xc000012008; Ptr 0xc000012008] [11%Z; 12%Z] ].
Proof.
  intros out. split; [apply bump_fresh |].
  assert (E : out = main_out 0xc000012000 0xc000012008) by (by vm_compute).
  rewrite E. split; [by vm_compute |].
  split; [by vm_compute |]. split; [by vm_compute |].
  split; [by vm_compute |]. split; by vm_compute.
Qed.

(** [C8]. [main] has no input but the platform it runs on; on every
    platform it runs to its return, with no panic on the way, so the
    process ends with exit status 0, its call stack empty and all its
    variables gone. *)
Theorem main_exit_status A alloc :
  fresh_alloc alloc →
  returned (main A alloc boot) = true ∧
  exit_status (main A alloc boot) = 0%Z ∧
  stack (final (main A alloc boot)) = [] ∧
  heap (final (main A alloc boot)) = ∅.
Proof. intros Hfresh. by rewrite main_returns. Qed.

Lemma main_exit_status_witness :
  fresh_alloc (bump 0xc000012000) ∧
  exit_status (main Arch64 (bump 0xc000012000) boot) = 0%Z.
Proof.
  split; [apply bump_fresh |].
  exact (proj1 (proj2 (main_exit_status Arch64 (bump 0xc000012000) (bump_fresh _)))).
Defined.

(** [C9], as amended. The run is deterministic up to the addresses the
    run-time system chooses: two runs that place [count] and the copy at
    the same addresses print the same text, whatever the platform; and
    any two runs print the same labels and the same values in the same
    order, that is, the same output once the addresses are blanked. *)
Theorem output_determined A1 A2 alloc1 alloc2 :
  fresh_alloc alloc1 → fresh_alloc alloc2 →
  (count_addr alloc1 = count_addr alloc2 →
   copy_addr alloc1 = copy_addr alloc2 →
   text (stdout (final (main A1 alloc1 boot))) =
   text (stdout (final (main A2 alloc2 boot)))) ∧
  erase_pointers (stdout (final (main A1 alloc1 boot))) =
  erase_pointers (stdout (final (main A2 alloc2 boot))).
Proof.
  intros H1 H2. rewrite !main_returns by done. cbn [final stdout].
  split; [by intros -> -> | reflexivity].
Qed.

Lemma output_determined_witness :
  fresh_alloc (bump 0xc000012000) ∧ fresh_alloc (bump 0xc000014000) ∧
  erase_pointers (stdout (final (main Arch64 (bump 0xc000012000) boot))) =
  erase_pointers (stdout (final (main Arch32 (bump 0xc000014000) boot))).
Proof.
  split; [apply bump_fresh |]. split; [apply bump_fresh |].
  exact (proj2 (output_determined Arch64 Arch32 (bump 0xc000012000)
                  (bump 0xc000014000) (bump_fresh _) (bump_fresh _))).
Defined.

(** [C9], as stated, fails: two runs whose run-time systems place the
    variables at different addresses print different text. *)
Lemma output_differs_between_runs :
  fresh_alloc (bump 0xc000012000) ∧ fresh_alloc (bump 0xc000014000) ∧
  text (stdout (final (main Arch64 (bump 0xc000012000) boot))) ≠
  text (stdout (final (main Arch64 (bump 0xc000014000) boot))).
Proof.
  split; [apply bump_fresh |]. split; [apply bump_fresh |].
  intros E.
  apply (f_equal (λ s, substring 65 12 s)) in E.
  vm_compute in E. discriminate.
Qed.

(** [C10]. [incrementValue] dereferences its argument without a nil
    check: on a nil pointer it panics instead of returning (after its
    first two lines of output), and on a pointer to a live cell it
    returns. In [main] the argument is the address of [count], which is
    live at the call, so the panic cannot happen there. *)
Theorem incrementValue_nil_panics A alloc a v m :
  fresh_alloc alloc → heap m !! a = Some v →
  returned (incrementValue A Nil m) = false ∧
  length (stdout (final (incrementValue A Nil m))) = length (stdout m) + 2 ∧
  returned (incrementValue A (Ptr a) m) = true ∧
  (∃ c m2, main_upto A alloc 2 boot = Returns c m2 ∧
           main_3 A c = incrementValue A (Ptr c) ∧
           is_Some (heap m2 !! c) ∧
           returned (main_3 A c m2) = true) ∧
  returned (main A alloc boot) = true.
Proof.
  intros Hfresh Hv.
  rewrite incrementValue_nil, (incrementValue_returns A a v m Hv),
    main_returns by done.
  cbn [returned final stdout]. rewrite length_app.
  repeat split; try done.
  eexists _, _. split; [by apply main_upto_2 |]. split; [done |].
  cbn [heap]. rewrite lookup_singleton_eq. split; [done |].
  by erewrite main_3_returns by (cbn [heap]; apply lookup_singleton_eq).
Qed.

Lemma incrementValue_nil_panics_witness :
  fresh_alloc (bump 0xc000012000) ∧
  returned (incrementValue Arch64 Nil
              (Machine {[4096%N := 10%Z]} [Frame Fn_main [4096%N]] [])) = false.
Proof.
  split; [apply bump_fresh |].
  exact (proj1 (incrementValue_nil_panics Arch64 (bump 0xc000012000) 4096 10
                  (Machine {[4096%N := 10%Z]} [Frame Fn_main [4096%N]] [])
                  (bump_fresh _) ltac:(by vm_compute))).
Defined.

(** * Further properties of the three functions *)

(** [main] is its first two steps followed by [main_3_to_6]. *)
Lemma main_3_to_6_main A alloc :
  main A alloc =
    call_fn Fn_main (count ← main_1 alloc; main_2 count;; main_3_to_6 A alloc count).
Proof. reflexivity. Qed.

(** [X1]. A call of [incrementValue] on a pointer to a live cell writes
    to that cell only: every other cell holds what it held, no variable
    is created or destroyed, and the call stack is as it was. *)
Theorem incrementValue_frame A a v m :
  heap m !! a = Some v →
  ∃ m', incrementValue A (Ptr a) m = Returns () m' ∧
        (∀ b, b ≠ a → heap m' !! b = heap m !! b) ∧
        dom (heap m') = dom (heap m) ∧
        stack m' = stack m.
Proof.
  intros Hv. eexists. split; [by apply incrementValue_returns |].
  cbn [heap stack]. split; [| split; [| done]].
  - intros b Hb. by rewrite lookup_insert_ne.
  - rewrite dom_insert_L.
    apply subseteq_union_1_L, singleton_subseteq_l, elem_of_dom. eauto.
Qed.

Lemma incrementValue_frame_witness :
  ∃ m', incrementValue Arch64 (Ptr 4096)
          (Machine {[4096%N := 10%Z; 4104%N := 7%Z]} [Frame Fn_main [4104%N; 4096%N]] [])
          = Returns () m' ∧
        (∀ b, b ≠ 4096%N →
           heap m' !! b = ({[4096%N := 10%Z; 4104%N := 7%Z]} : gmap N Z) !! b) ∧
        dom (heap m') = dom ({[4096%N := 10%Z; 4104%N := 7%Z]} : gmap N Z) ∧
        stack m' = [Frame Fn_main [4104%N; 4096%N]].
Proof.
  exact (incrementValue_frame Arch64 4096 10
           (Machine {[4096%N := 10%Z; 4104%N := 7%Z]} [Frame Fn_main [4104%N; 4096%N]] [])
           ltac:(by vm_compute)).
Defined.

(** [X2]. A call of [incrementValue] on a pointer to a live cell makes
    seven writes: a blank line and its label, the address twice, the
    value before the increment, the value after it, and the address
    twice again. The four addresses are all the argument itself, before
    the increment and after it; the two values are what the cell held
    at the call and what it holds at the return. *)
Theorem incrementValue_prints A a v m :
  heap m !! a = Some v →
  ∃ m' v', incrementValue A (Ptr a) m = Returns () m' ∧
           heap m' !! a = Some v' ∧
           rendered (printed_since m m') =
             [ nl +:+ "Inside incrementValue function (pointer version):" +:+ nl;
               "Address of variable inside function: " +:+ fmt_p (Ptr a) +:+ nl;
               "Address where the value is stored (dereferenced pointer): " +:+
                 fmt_p (Ptr a) +:+ nl;
               "Value before increment: " +:+ fmt_d v +:+ nl;
               "Value after increment: " +:+ fmt_d v' +:+ nl;
               "Address of variable inside function after increment (still same pointer address): " +:+
                 fmt_p (Ptr a) +:+ nl;
               "Address where the value is stored after increment (still same memory location): " +:+
                 fmt_p (Ptr a) +:+ nl ] ∧
           printed_pointers (printed_since m m') = [Ptr a; Ptr a; Ptr a; Ptr a] ∧
           printed_ints (printed_since m m') = [v; v'].
Proof.
  intros Hv. eexists _, _. split; [by apply incrementValue_returns |].
  rewrite printed_since_app. cbn [heap].
  split; [apply lookup_insert_eq |]. by repeat split.
Qed.

Lemma incrementValue_prints_witness :
  ∃ m' v', incrementValue Arch64 (Ptr 4096)
             (Machine {[4096%N := 10%Z]} [Frame Fn_main [4096%N]] []) = Returns () m' ∧
           heap m' !! 4096%N = Some v' ∧
           rendered
             (printed_since (Machine {[4096%N := 10%Z]} [Frame Fn_main [4096%N]] []) m') =
             [ nl +:+ "Inside incrementValue function (pointer version):" +:+ nl;
               "Address of variable inside function: 0x1000" +:+ nl;
               "Address where the value is stored (dereferenced pointer): 0x1000" +:+ nl;
               "Value before increment: 10" +:+ nl;
               "Value after increment: " +:+ fmt_d v' +:+ nl;
               "Address of variable inside function after increment (still same pointer address): 0x1000" +:+ nl;
               "Address where the value is stored after increment (still same memory location): 0x1000" +:+ nl ] ∧
           printed_pointers
             (printed_since (Machine {[4096%N := 10%Z]} [Frame Fn_main [4096%N]] []) m') =
             [Ptr 4096; Ptr 4096; Ptr 4096; Ptr 4096] ∧
           printed_ints
             (printed_since (Machine {[4096%N := 10%Z]} [Frame Fn_main [4096%N]] []) m') =
             [10%Z; v'].
Proof.
  exact (incrementValue_prints Arch64 4096 10
           (Machine {[4096%N := 10%Z]} [Frame Fn_main [4096%N]] [])
           ltac:(by vm_compute)).
Defined.

(** [X3]. The variable that [incrementValueNoPtr] increments is its
    own: the address it prints, the same before and after the
    increment, is the address of no variable of the caller, and that
    variable is gone when the call returns. The values it prints are
    its argument and the argument incremented (with wrap-around). *)
Theorem incrementValueNoPtr_copy A alloc v m :
  fresh_alloc alloc →
  ∃ m' d, incrementValueNoPtr A alloc v m = Returns () m' ∧
          heap m !! d = None ∧ heap m' !! d = None ∧
          printed_pointers (printed_since m m') = [Ptr d; Ptr d] ∧
          printed_ints (printed_since m m') = [v; wrap A (v + 1)].
Proof.
  intros Hfresh. eexists _, (alloc (heap m)).
  split; [by apply incrementValueNoPtr_returns |].
  rewrite printed_since_app. cbn [heap]. by repeat split.
Qed.

Lemma incrementValueNoPtr_copy_witness :
  fresh_alloc (bump 0xc000012000) ∧
  ∃ m' d, incrementValueNoPtr Arch64 (bump 0xc000012000) 11
            (Machine {[0xc000012000%N := 11%Z]} [Frame Fn_main [0xc000012000%N]] [])
            = Returns () m' ∧
          ({[0xc000012000%N := 11%Z]} : gmap N Z) !! d = None ∧
          heap m' !! d = None ∧
          printed_pointers
            (printed_since
               (Machine {[0xc000012000%N := 11%Z]} [Frame Fn_main [0xc000012000%N]] []) m')
            = [Ptr d; Ptr d] ∧
          printed_ints
            (printed_since
               (Machine {[0xc000012000%N := 11%Z]} [Frame Fn_main [0xc000012000%N]] []) m')
            = [11%Z; wrap Arch64 (11 + 1)].
Proof.
  split; [apply bump_fresh |].
  exact (incrementValueNoPtr_copy Arch64 (bump 0xc000012000) 11
           (Machine {[0xc000012000%N := 11%Z]} [Frame Fn_main [0xc000012000%N]] [])
           (bump_fresh _)).
Defined.

(** [X4]. A call of [incrementValue] on a nil pointer changes no
    memory before it panics: every cell holds what it held. It has
    printed its label and the nil address, and no value; its frame is
    still on the call stack, since it never returns. *)
Theorem incrementValue_nil_no_write A m :
  let m' := final (incrementValue A Nil m) in
  heap m' = heap m ∧
  printed_pointers (printed_since m m') = [Nil] ∧
  printed_ints (printed_since m m') = [] ∧
  fn <$> stack m' = Fn_incrementValue :: (fn <$> stack m).
Proof.
  intros m'. unfold m'. rewrite incrementValue_nil. cbn [final].
  by rewrite printed_since_app.
Qed.

(** [X5]. The two functions do not interfere: called one after the
    other on the cell at [a] and on any value [w], in either order,
    both return and leave the same memory, in which the cell at [a] is
    incremented once and nothing else has changed. *)
Theorem increments_commute A alloc a v w m :
  fresh_alloc alloc → heap m !! a = Some v →
  ∃ m1 m2,
    (incrementValue A (Ptr a);; incrementValueNoPtr A alloc w) m = Returns () m1 ∧
    (incrementValueNoPtr A alloc w;; incrementValue A (Ptr a)) m = Returns () m2 ∧
    heap m1 = heap m2 ∧
    heap m1 = <[a := wrap A (v + 1)]> (heap m).
Proof.
  intros Hfresh Hv. eexists _, _. unfold mbind, exec_bind.
  rewrite (incrementValue_returns A a v m Hv).
  rewrite (incrementValueNoPtr_returns A alloc w m) by done.
  split; [by apply incrementValueNoPtr_returns |].
  split; [by apply incrementValue_returns |]. done.
Qed.

Lemma increments_commute_witness :
  fresh_alloc (bump 0xc000012000) ∧
  ∃ m1 m2,
    (incrementValue Arch64 (Ptr 0xc000012000);;
     incrementValueNoPtr Arch64 (bump 0xc000012000) 5)
      (Machine {[0xc000012000%N := 10%Z]} [Frame Fn_main [0xc000012000%N]] [])
      = Returns () m1 ∧
    (incrementValueNoPtr Arch64 (bump 0xc000012000) 5;;
     incrementValue Arch64 (Ptr 0xc000012000))
      (Machine {[0xc000012000%N := 10%Z]} [Frame Fn_main [0xc000012000%N]] [])
      = Returns () m2 ∧
    heap m1 = heap m2 ∧
    heap m1 = <[0xc000012000%N := wrap Arch64 (10 + 1)]> {[0xc000012000%N := 10%Z]}.
Proof.
  split; [apply bump_fresh |].
  exact (increments_commute Arch64 (bump 0xc000012000) 0xc000012000 10 5
           (Machine {[0xc000012000%N := 10%Z]} [Frame Fn_main [0xc000012000%N]] [])
           (bump_fresh _) ltac:(by vm_compute)).
Defined.

Lemma wrap_inj A x y : is_int A x → is_int A y →
  wrap A (x + 1) = wrap A (y + 1) → x = y.
Proof.
  unfold is_int. intros Hx Hy E.
  destruct (Z.eqb_spec x (maxInt A)) as [->|Hx'];
    destruct (Z.eqb_spec y (maxInt A)) as [->|Hy']; [done | | |].
  - rewrite wrap_succ_maxInt, (wrap_small A (y + 1)) in E
      by (unfold is_int; lia). lia.
  - rewrite wrap_succ_maxInt, (wrap_small A (x + 1)) in E
      by (unfold is_int; lia). lia.
  - rewrite !wrap_small in E by (unfold is_int; lia). lia.
Qed.

(** [X6]. [incrementValue] loses no information, overflow included:
    two cells that hold different [int] values before the call hold
    different values after it. *)
Theorem incrementValue_injective A a1 a2 v1 v2 m1 m2 :
  is_int A v1 → is_int A v2 →
  heap m1 !! a1 = Some v1 → heap m2 !! a2 = Some v2 →
  heap (final (incrementValue A (Ptr a1) m1)) !! a1 =
  heap (final (incrementValue A (Ptr a2) m2)) !! a2 →
  v1 = v2.
Proof.
  intros Hi1 Hi2 H1 H2.
  rewrite (incrementValue_returns A a1 v1 m1 H1),
    (incrementValue_returns A a2 v2 m2 H2).
  cbn [final heap]. rewrite !lookup_insert_eq. intros [= E].
  by apply (wrap_inj A).
Qed.

Lemma incrementValue_injective_witness :
  is_int Arch64 10 ∧
  heap (final (incrementValue Arch64 (Ptr 4096)
                 (Machine {[4096%N := 10%Z]} [] []))) !! 4096%N =
  heap (final (incrementValue Arch64 (Ptr 8192)
                 (Machine {[8192%N := 10%Z]} [] []))) !! 8192%N ∧
  (10 = 10)%Z.
Proof.
  split; [by vm_compute |]. split; [by vm_compute |].
  exact (incrementValue_injective Arch64 4096 8192 10 10
           (Machine {[4096%N := 10%Z]} [] []) (Machine {[8192%N := 10%Z]} [] [])
           ltac:(by vm_compute) ltac:(by vm_compute)
           ltac:(by vm_compute) ltac:(by vm_compute) ltac:(by vm_compute)).
Defined.

(** [X7]. Memory stays well typed: if every live variable holds a
    value of type [int], so does every live variable after any number
    of [incrementValue] calls on one of them. *)
Theorem incrementValue_keeps_typed A a n : ∀ m,
  heap_typed A (heap m) → is_Some (heap m !! a) →
  ∃ m', repeat_call n (incrementValue A (Ptr a)) m = Returns () m' ∧
        heap_typed A (heap m') ∧ is_Some (heap m' !! a).
Proof.
  induction n as [|n IH]; intros m Ht [v Hv].
  - exists m. eauto.
  - cbn [repeat_call]. unfold mbind, exec_bind.
    rewrite (incrementValue_returns A a v m Hv).
    apply IH; cbn [heap].
    + apply map_Forall_insert_2; [apply wrap_is_int | done].
    + rewrite lookup_insert_eq. eauto.
Qed.

Lemma incrementValue_keeps_typed_witness :
  heap_typed Arch32 ({[4096%N := 2147483647%Z]} : gmap N Z) ∧
  ∃ m', repeat_call 3 (incrementValue Arch32 (Ptr 4096))
          (Machine {[4096%N := 2147483647%Z]} [] []) = Returns () m' ∧
        heap_typed Arch32 (heap m') ∧ is_Some (heap m' !! 4096%N).
Proof.
  assert (Ht : heap_typed Arch32 ({[4096%N := 2147483647%Z]} : gmap N Z)).
  { apply map_Forall_singleton. by vm_compute. }
  split; [exact Ht |].
  exact (incrementValue_keeps_typed Arch32 4096 3
           (Machine {[4096%N := 2147483647%Z]} [] []) Ht
           (mk_is_Some _ _ (lookup_singleton_eq _ _))).
Defined.

(** [X8]. What the comments of [main] promise holds for every value of
    [count], not only 10: from a state of [main] in which [count] holds
    [v], steps 3 to 6 return with [count] incremented once and all else
    unchanged; [main] reports the incremented value after each of the
    two calls (the second call did not change it), and in between
    [incrementValueNoPtr] printed that value and its own increment. *)
Theorem main_3_to_6_any_value A alloc count v m :
  fresh_alloc alloc →
  heap m !! count = Some v → fn <$> stack m = [Fn_main] →
  ∃ m', main_3_to_6 A alloc count m = Returns () m' ∧
        heap m' = <[count := wrap A (v + 1)]> (heap m) ∧
        stack m' = stack m ∧
        printed_ints (driver_events (printed_since m m')) =
          [wrap A (v + 1); wrap A (v + 1)] ∧
        printed_ints (events_of Fn_incrementValueNoPtr (printed_since m m')) =
          [wrap A (v + 1); wrap A (v + 2)] ∧
        printed_pointers (driver_events (printed_since m m')) =
          [Ptr count; Ptr count].
Proof.
  intros Hfresh Hv Hs. unfold main_3_to_6, mbind, exec_bind.
  rewrite (main_3_returns A count v m Hv).
  erewrite main_4_returns by (cbn [heap stack]; first [apply lookup_insert_eq | done]).
  erewrite main_5_returns by (cbn [heap]; first [apply lookup_insert_eq | apply Hfresh]).
  erewrite main_6_returns by (cbn [heap stack]; first [apply lookup_insert_eq | done]).
  eexists. split; [done |]. cbn [heap stack stdout].
  split; [done |]. split; [done |].
  rewrite <- !app_assoc, printed_since_app, Hs, wrap_wrap_add.
  replace (v + 1 + 1)%Z with (v + 2)%Z by lia.
  by repeat split.
Qed.

Lemma main_3_to_6_any_value_witness :
  fresh_alloc (bump 0xc000012000) ∧
  ∃ m', main_3_to_6 Arch64 (bump 0xc000012000) 0xc000012000
          (Machine {[0xc000012000%N := 41%Z]} [Frame Fn_main [0xc000012000%N]] [])
          = Returns () m' ∧
        heap m' !! 0xc000012000%N = Some 42%Z.
Proof.
  split; [apply bump_fresh |].
  destruct (main_3_to_6_any_value Arch64 (bump 0xc000012000) 0xc000012000 41
              (Machine {[0xc000012000%N := 41%Z]} [Frame Fn_main [0xc000012000%N]] [])
              (bump_fresh _) ltac:(by vm_compute) eq_refl) as (m' & E & Hh & _).
  exists m'. split; [exact E |]. rewrite Hh. by vm_compute.
Defined.
